(** * WhisperLink: the in-memory single-use secret store of [server.js]

    The server keeps one global [Map] from identifiers to
    [{ content, expiresAt }] records.  Three callbacks touch it: the
    [POST /api/secrets] handler, the [GET /api/secrets/:id] handler and
    the [setInterval] clean-up job; [GET /api/health] reads its size.
    None of the callbacks awaits anything, so on Node's event loop each
    one runs to completion before the next starts: an execution of the
    server is a sequence of callbacks, each applied to the store left by
    the previous one.

    Strings are sequences of UTF-16 code units, as in JavaScript; numbers
    that the handlers compute with (timestamps, lengths, status codes) are
    integers.  [Date.now()] and [uuidv4()] are inputs of the callbacks.
    Console logging is left out, except that the clean-up job's
    [cleanedCount] is returned and that the one log line that can throw,
    in the creation handler, is modelled.  The [SIGTERM] and [SIGINT] handlers clear
    the map and exit the process, so no callback runs after them. *)

From stdpp Require Import gmap list fin_maps strings.

Local Open Scope Z_scope.

(** ** JavaScript strings and values *)

Module Js.

(** A string is its list of UTF-16 code units. *)
Definition jsstring : Type := list N.

(** The code units of an ASCII literal. *)
Fixpoint lit (s : string) : jsstring :=
  match s with
  | EmptyString => []
  | String a r => Ascii.N_of_ascii a :: lit r
  end.

(** [s.length] *)
Definition length (s : jsstring) : Z := Z.of_nat (List.length s).

(** ECMAScript WhiteSpace and LineTerminator code points, the ones
    [String.prototype.trim] strips.  All of them lie in the basic
    plane, so each is one code unit. *)
Definition is_space (c : N) : bool :=
  ((9 <=? c) && (c <=? 13) || (c =? 32) || (c =? 160) || (c =? 5760)
   || (8192 <=? c) && (c <=? 8202) || (c =? 8232) || (c =? 8233)
   || (c =? 8239) || (c =? 8287) || (c =? 12288) || (c =? 65279))%N.

Fixpoint trimStart (s : jsstring) : jsstring :=
  match s with
  | c :: r => if is_space c then trimStart r else s
  | [] => []
  end.

Definition trimEnd (s : jsstring) : jsstring := rev (trimStart (rev s)).

(** [s.trim()] *)
Definition trim (s : jsstring) : jsstring := trimEnd (trimStart s).

(** The values a parsed JSON body can hold under a key, plus
    [undefined] for an absent key.  Arrays and objects are one
    constructor: the handlers only look at truthiness and [typeof].
    A number is kept as an integer; only whether it is zero matters. *)
Inductive value : Type :=
| Undefined
| Null
| Bool (b : bool)
| Number (n : Z)
| Str (s : jsstring)
| Object.

(** [ToBoolean] *)
Definition truthy (v : value) : bool :=
  match v with
  | Undefined | Null => false
  | Bool b => b
  | Number n => negb (n =? 0)
  | Str s => negb (length s =? 0)
  | Object => true
  end.

(** [typeof v === 'string'] *)
Definition is_string (v : value) : bool :=
  match v with
  | Str _ => true
  | _ => false
  end.

End Js.

Import Js.

(** ** The store *)

(** The records kept in [secrets]. *)
Record secret : Type := Secret { content : jsstring; expiresAt : Z }.

(** [const secrets = new Map()].  The clean-up job is the only code that
    iterates over the map, and what it computes does not depend on the
    order of iteration (see [sweep_spec]). *)
Abbreviation store := (gmap jsstring secret).

Definition SECRET_TTL_HOURS : Z := 24.
Definition CLEANUP_INTERVAL_MS : Z := 60 * 60 * 1000.

(** ** Responses *)

Inductive body : Type :=
| ErrorBody (error : string)
| CreatedBody (id url : jsstring) (expires_at : Z) (expiresIn : jsstring)
| ContentBody (content : jsstring)
| HealthBody (activeSecrets : Z).

(** [res.status(code).json(body)]; [res.json(body)] has status 200. *)
Record response : Type := Response { status : Z; json : body }.

Definition content_required : response :=
  Response 400 (ErrorBody "Secret content is required").
Definition content_too_large : response :=
  Response 400 (ErrorBody "Secret content is too large (max 100KB)").
Definition not_found : response :=
  Response 404 (ErrorBody "Secret not found or already accessed").
Definition has_expired : response :=
  Response 404 (ErrorBody "Secret has expired").
Definition create_failed : response :=
  Response 500 (ErrorBody "Failed to create secret").

(** ** The clean-up job *)

(** One turn of the [for ... of secrets.entries()] loop: [acc] is the
    map as mutated so far together with [cleanedCount]. *)
Definition sweep_entry (now : Z) (id : jsstring) (s : secret)
    (acc : store * Z) : store * Z :=
  if expiresAt s <? now then (delete id acc.1, acc.2 + 1) else acc.

(** The body of the [setInterval] callback, at [Date.now() = now]: the
    store it leaves and [cleanedCount].  Deleting the entry under the
    iterator does not disturb a [Map] iteration, so the loop visits each
    entry that was in the map when it started exactly once. *)
Definition sweep (secrets : store) (now : Z) : store * Z :=
  map_fold (sweep_entry now) (secrets, 0) secrets.

(** ** POST /api/secrets *)

(** What the handler reads from the request: [req.body], the protocol
    ([req.get('x-forwarded-proto') || req.protocol]) and [req.get('host')].
    [req_body] is [None] when the JSON middleware left [req.body] undefined,
    and otherwise the value of its [content] property ([Undefined] if it
    has none). *)
Record create_request : Type :=
  CreateRequest { req_body : option value; protocol : jsstring; host : jsstring }.

(** The first validation: [!content || typeof content !== 'string' ||
    content.trim().length === 0]. *)
Definition content_missing (v : value) : bool :=
  negb (truthy v) || negb (is_string v) ||
  match v with
  | Str s => Js.length (trim s) =? 0
  | _ => false
  end.

(** [`${protocol}://${host}/?secret=${id}`] *)
Definition secret_url (req : create_request) (id : jsstring) : jsstring :=
  protocol req ++ lit "://" ++ host req ++ lit "/?secret=" ++ id.

(** [`${SECRET_TTL_HOURS} hours`] *)
Definition expires_in : jsstring := lit "24 hours".

(** The time values a [Date] holds.  Outside this range
    [new Date(v)] is an invalid date, on which [toISOString()] throws a
    [RangeError]. *)
Definition valid_time (v : Z) : bool :=
  (-8640000000000000 <=? v) && (v <=? 8640000000000000).

(** The handler, with [uuid] the value [uuidv4()] returns and [now] the
    value of [Date.now()]; both are called only once validation has
    passed.  Two places in the [try] block can throw, and the [catch]
    then answers 500: destructuring an undefined [req.body], before
    anything is done, and [new Date(expiresAt).toISOString()] in the
    [[Create]] log line, which is evaluated after [secrets.set], so that
    the entry stays stored.  [Date.now()] is itself a time value, so the
    sum is exact. *)
Definition create_secret (secrets : store) (req : create_request)
    (uuid : jsstring) (now : Z) : store * response :=
  match req_body req with
  | None => (secrets, create_failed)
  | Some content =>
      if content_missing content then (secrets, content_required)
      else
        match content with
        | Str text =>
            if Js.length text >? 100000 then (secrets, content_too_large)
            else
              let id := uuid in
              let expiresAt := now + SECRET_TTL_HOURS * 60 * 60 * 1000 in
              let secrets := <[id := Secret (trim text) expiresAt]> secrets in
              if valid_time expiresAt
              then
                (secrets,
                 Response 200
                   (CreatedBody id (secret_url req id) expiresAt expires_in))
              else (secrets, create_failed)
        | _ => (secrets, content_required)
        end
  end.

(** Does the handler reach [secrets.set]?  It does when the body is
    there and [content] passes both validations. *)
Definition reaches_set (req : create_request) : bool :=
  match req_body req with
  | Some (Str text) =>
      negb (content_missing (Str text)) && negb (Js.length text >? 100000)
  | _ => false
  end.

(** ** GET /api/secrets/:id *)

(** [id] is [req.params.id], [now] is [Date.now()] (read only when an
    entry was found). *)
Definition read_secret (secrets : store) (id : jsstring) (now : Z)
    : store * response :=
  if negb (truthy (Str id)) || negb (Js.length id =? 36) then (secrets, not_found)
  else
    match secrets !! id with
    | None => (secrets, not_found)
    | Some s =>
        if expiresAt s <? now then (delete id secrets, has_expired)
        else (delete id secrets, Response 200 (ContentBody (content s)))
    end.

(** ** GET /api/health *)

(** [uptime] is not modelled. *)
Definition health (secrets : store) : response :=
  Response 200 (HealthBody (Z.of_nat (size secrets))).

(** ** Executions *)

(** A callback the event loop runs, with the values it reads from the
    outside. *)
Inductive request : Type :=
| Create (req : create_request) (uuid : jsstring) (now : Z)
| Retrieve (id : jsstring) (now : Z)
| Cleanup (now : Z)
| Health.

(** What a callback lets the outside see: an HTTP response, or the
    clean-up job's [cleanedCount]. *)
Inductive output : Type :=
| Reply (r : response)
| Cleaned (cleanedCount : Z).

Definition step (secrets : store) (r : request) : store * output :=
  match r with
  | Create req uuid now =>
      let '(s, resp) := create_secret secrets req uuid now in (s, Reply resp)
  | Retrieve id now =>
      let '(s, resp) := read_secret secrets id now in (s, Reply resp)
  | Cleanup now =>
      let '(s, n) := sweep secrets now in (s, Cleaned n)
  | Health => (secrets, Reply (health secrets))
  end.

(** Callbacks run one after the other.  The history pairs each callback
    with what it produced. *)
Fixpoint run (secrets : store) (tr : list request)
    : store * list (request * output) :=
  match tr with
  | [] => (secrets, [])
  | r :: rest =>
      let '(s1, o) := step secrets r in
      let '(s2, h) := run s1 rest in
      (s2, (r, o) :: h)
  end.

(** ** Reading a history *)

(** Is [r] a retrieval of [id]? *)
Definition retrieves (id : jsstring) (r : request) : bool :=
  match r with
  | Retrieve id' _ => bool_decide (id' = id)
  | _ => false
  end.

(** The retrievals of [id] in a trace, and what they were answered. *)
Definition calls (id : jsstring) (tr : list request) : list request :=
  filter (λ r, retrieves id r = true) tr.

Definition replies (id : jsstring) (h : list (request * output)) : list output :=
  snd <$> filter (λ ro, retrieves id ro.1 = true) h.

(** Is [r] a creation that draws [id] from [uuidv4()]? *)
Definition issues (id : jsstring) (r : request) : bool :=
  match r with
  | Create _ uuid _ => bool_decide (uuid = id)
  | _ => false
  end.

(** Does [r] look at the store at an instant at which an entry expiring at
    [deadline] counts as expired: a retrieval of [id] or a clean-up with
    [deadline < Date.now()]? *)
Definition sees_expired (id : jsstring) (deadline : Z) (r : request) : bool :=
  match r with
  | Retrieve id' now => bool_decide (id' = id) && (deadline <? now)
  | Cleanup now => deadline <? now
  | _ => false
  end.

(** Every identifier drawn along the trace is absent from the store at the
    time it is drawn. *)
Fixpoint fresh_ids (secrets : store) (tr : list request) : bool :=
  match tr with
  | [] => true
  | r :: rest =>
      match r with
      | Create _ uuid _ => bool_decide (secrets !! uuid = None)
      | _ => true
      end && fresh_ids (step secrets r).1 rest
  end.

(** The number of [secrets.set] calls in a history: one for each
    creation that reaches it.  (While the clock is in the range of
    [valid_time] these are the creations answered with the new
    identifier, see [set_iff_created].) *)
Definition stored (ro : request * output) : Z :=
  match ro.1 with
  | Create req _ _ => if reaches_set req then 1 else 0
  | _ => 0
  end.

(** The number of entries a history shows as deleted: one for each
    retrieval answered with a content or with the expiry error (the two
    branches that call [secrets.delete]), and [cleanedCount] for each
    clean-up. *)
Definition deleted (ro : request * output) : Z :=
  match ro.2 with
  | Reply (Response _ (ContentBody _)) => 1
  | Reply (Response _ (ErrorBody msg)) =>
      if bool_decide (msg = "Secret has expired"%string) then 1 else 0
  | Cleaned n => n
  | _ => 0
  end.

Definition total (f : request * output → Z) (h : list (request * output)) : Z :=
  foldr (λ ro acc, f ro + acc) 0 h.

(** ** Shapes of strings *)

Definition starts_with_space (s : jsstring) : bool :=
  match s with
  | c :: _ => is_space c
  | [] => false
  end.

Definition ends_with_space (s : jsstring) : bool := starts_with_space (rev s).

(** Non-empty, and neither the first nor the last code unit is white
    space. *)
Definition trimmed (s : jsstring) : Prop :=
  s ≠ [] ∧ starts_with_space s = false ∧ ends_with_space s = false.

(** Every stored content is trimmed. *)
Definition all_trimmed (s : store) : Prop :=
  ∀ id e, s !! id = Some e → trimmed (content e).

(** The entries the clean-up job deletes at [now]. *)
Definition stale (now : Z) (kv : jsstring * secret) : Prop := expiresAt kv.2 < now.

#[global] Instance stale_dec now kv : Decision (stale now kv).
Proof. unfold stale. apply _. Defined.

(** Does the response carry a secret? *)
Definition returns_payload (resp : response) : bool :=
  match json resp with
  | ContentBody _ => true
  | _ => false
  end.

(** The three ways an entry leaves the store: a retrieval that returns it,
    a retrieval that finds it expired, the clean-up job.  Identifiers come
    from [uuidv4()], whose results are 36 characters long. *)
Inductive removed (id : jsstring) : store → store → Prop :=
| removed_consumed s e now :
    s !! id = Some e → Js.length id = 36 → now ≤ expiresAt e →
    removed id s (read_secret s id now).1
| removed_expired s e now :
    s !! id = Some e → Js.length id = 36 → expiresAt e < now →
    removed id s (read_secret s id now).1
| removed_swept s e now :
    s !! id = Some e → expiresAt e < now →
    removed id s (sweep s now).1.

(** * The page script, [public/app.js]

    The script drives a page whose elements it looks up once, in
    [elements]; the page itself ([index.html]) is taken to provide all of
    them.  What the script reads and writes on them is kept in [page]: the
    class list of each element, the text and state of the controls it
    sets, the address shown after [pushState], the variable
    [currentSecret], and the messages passed to [alert].  The character
    counter, whose text depends on the locale, and the two clipboard
    handlers are left out.

    A handler that awaits [fetch] is split where it waits: the part that
    runs up to the request, and the part that runs on the outcome, on the
    page as it is by then. *)

Module Client.

(** The keys of [elements]. *)
Inductive elem : Type :=
| viewCreate | viewResult | viewRead | viewError | loading
| secretInput | charCount | createBtn
| resultLink | copyBtn | expirationText | createAnotherBtn
| secretContent | copySecretBtn | goHomeBtn
| errorHomeBtn.

#[global] Instance elem_eq_dec : EqDecision elem.
Proof. solve_decision. Defined.

(** The names [showView] is called with. *)
Inductive view_name : Type := create | result | read | error.

(** [viewMap] *)
Definition viewMap (viewName : view_name) : elem :=
  match viewName with
  | create => viewCreate
  | result => viewResult
  | read => viewRead
  | error => viewError
  end.

Record page : Type := Page {
  classList : elem → gset string;
  location : jsstring;
  secretInput_value : jsstring;
  createBtn_disabled : bool;
  resultLink_value : jsstring;
  expirationText_textContent : jsstring;
  secretContent_textContent : jsstring;
  currentSecret : value;
  alerts : list jsstring
}.

Definition with_classList (f : elem → gset string) (p : page) : page :=
  Page f (location p) (secretInput_value p) (createBtn_disabled p)
    (resultLink_value p) (expirationText_textContent p)
    (secretContent_textContent p) (currentSecret p) (alerts p).

(** [alert(message)] *)
Definition alert (message : jsstring) (p : page) : page :=
  Page (classList p) (location p) (secretInput_value p) (createBtn_disabled p)
    (resultLink_value p) (expirationText_textContent p)
    (secretContent_textContent p) (currentSecret p) (alerts p ++ [message]).

(** The class list of [el] after the first loop of [showView]: a view
    loses [active]. *)
Definition hidden (p : page) (el : elem) : gset string :=
  if decide ("view" ∈ classList p el) then classList p el ∖ {["active"]}
  else classList p el.

Definition showView (viewName : view_name) (p : page) : page :=
  Page
    (λ el, if decide (el = viewMap viewName) then hidden p el ∪ {["active"]}
           else hidden p el)
    (match viewName with create => lit "/" | _ => location p end)
    (secretInput_value p) (createBtn_disabled p)
    (resultLink_value p) (expirationText_textContent p)
    (secretContent_textContent p) (currentSecret p) (alerts p).

Definition showLoading (show : bool) (p : page) : page :=
  with_classList
    (λ el, if decide (el = loading)
           then (if show then classList p el ∖ {["hidden"]}
                 else classList p el ∪ {["hidden"]})
           else classList p el) p.

(** How [await fetch(...)] followed by [await response.json()] ends:
    one of them throws an error with a message, or the parsed body
    arrives with the response's status. *)
Inductive fetched : Type :=
| Threw (message : jsstring)
| Got (resp : response).

(** [response.ok] *)
Definition ok (resp : response) : bool :=
  (200 <=? status resp) && (status resp <=? 299).

(** [data.error || fallback] *)
Definition error_or (data : body) (fallback : string) : string :=
  match data with
  | ErrorBody e => if String.eqb e "" then fallback else e
  | _ => fallback
  end.

(** [createSecret], from the outcome of the request on: the page and the
    value returned, [None] for [null]. *)
Definition createSecret (f : fetched) (p : page) : page * option body :=
  match f with
  | Got resp =>
      if negb (ok resp)
      then (showLoading false
              (alert (lit "Error: "
                      ++ lit (error_or (json resp) "Failed to create secret")) p),
            None)
      else (showLoading false p, Some (json resp))
  | Threw message =>
      (showLoading false (alert (lit "Error: " ++ message) p), None)
  end.

(** [retrieveSecret], from the outcome of the request on. *)
Definition retrieveSecret (f : fetched) (p : page) : page * body :=
  match f with
  | Got resp =>
      (showLoading false p,
       if negb (ok resp) then ErrorBody (error_or (json resp) "Secret not found")
       else json resp)
  | Threw _ => (showLoading false p, ErrorBody "Failed to retrieve secret")
  end.

(** The [input] listener of the text area, once the text area holds
    [text]. *)
Definition on_input (text : jsstring) (p : page) : page :=
  Page (classList p) (location p) text (Js.length text =? 0)
    (resultLink_value p) (expirationText_textContent p)
    (secretContent_textContent p) (currentSecret p) (alerts p).

(** The [click] listener of the create button up to the request: the
    page, and the [content] posted if a request is made. *)
Definition on_create_click (p : page) : page * option jsstring :=
  let content := trim (secretInput_value p) in
  if negb (truthy (Str content))
  then (alert (lit "Please enter some content to share") p, None)
  else (showLoading true p, Some content).

(** [result.url] written to the link field, and [result.expiresIn ||
    'in 24 hours']. *)
Definition url_of (data : body) : jsstring :=
  match data with
  | CreatedBody _ url _ _ => url
  | _ => lit "undefined"
  end.

Definition expires_of (data : body) : jsstring :=
  match data with
  | CreatedBody _ _ _ expiresIn =>
      if truthy (Str expiresIn) then expiresIn else lit "in 24 hours"
  | _ => lit "in 24 hours"
  end.

(** The rest of the [click] listener, on the outcome of the request. *)
Definition on_create_done (f : fetched) (p : page) : page :=
  let '(p1, returned) := createSecret f p in
  match returned with
  | Some data =>
      showView result
        (Page (classList p1) (location p1) [] true
           (url_of data) (lit "Expires " ++ expires_of data)
           (secretContent_textContent p1) (currentSecret p1) (alerts p1))
  | None => p1
  end.

(** [handleRouting] up to the request, with [secretId] what
    [urlParams.get('secret')] gives ([None] for [null]): the page, and
    the identifier asked for if a request is made. *)
Definition handleRouting (secretId : option jsstring) (p : page)
    : page * option jsstring :=
  match secretId with
  | Some id =>
      if truthy (Str id) then (showLoading true p, Some id)
      else (showView create p, None)
  | None => (showView create p, None)
  end.

(** Is [result.error] truthy? *)
Definition has_error (data : body) : bool :=
  match data with
  | ErrorBody e => negb (String.eqb e "")
  | _ => false
  end.

(** [result.content], and the text it gives when assigned to
    [textContent]. *)
Definition content_of (data : body) : value :=
  match data with
  | ContentBody c => Str c
  | _ => Undefined
  end.

Definition text_of (v : value) : jsstring :=
  match v with
  | Str c => c
  | _ => []
  end.

(** The rest of [handleRouting], on the outcome of the request. *)
Definition handleRouting_done (f : fetched) (p : page) : page :=
  let '(p1, returned) := retrieveSecret f p in
  if has_error returned then showView error p1
  else
    showView read
      (Page (classList p1) (location p1) (secretInput_value p1)
         (createBtn_disabled p1) (resultLink_value p1)
         (expirationText_textContent p1)
         (text_of (content_of returned)) (content_of returned) (alerts p1)).

(** What the [keydown] listener looks at. *)
Record key_event : Type := KeyEvent { ctrlKey : bool; metaKey : bool; key : string }.

Definition is_active (p : page) (el : elem) : bool :=
  bool_decide ("active" ∈ classList p el).

(** The [keydown] listener.  [createBtn.click()] runs the click listener
    on the spot, up to its request. *)
Definition on_keydown (e : key_event) (p : page) : page * option jsstring :=
  let '(p1, posted) :=
    if (ctrlKey e || metaKey e) && String.eqb (key e) "Enter"
    then
      if is_active p viewCreate && negb (createBtn_disabled p)
      then on_create_click p
      else (p, None)
    else (p, None) in
  if String.eqb (key e) "Escape"
  then
    if negb (is_active p1 viewCreate) then (showView create p1, posted)
    else (p1, posted)
  else (p1, posted).

End Client.

(** ** Where entries come from *)

(** [e] is what an accepted creation among [past] stored under [id]. *)
Definition issued_by (past : list request) (id : jsstring) (e : secret) : Prop :=
  ∃ req now text,
    Create req id now ∈ past ∧ req_body req = Some (Str text)
    ∧ Js.length text ≤ 100000 ∧ e = Secret (trim text) (now + 86400000).

(** Every entry of the store comes from a creation among [past]. *)
Definition all_issued (past : list request) (s : store) : Prop :=
  ∀ id e, s !! id = Some e → issued_by past id e.

(** ** Sample data *)

Module Sample.

Definition id1 : jsstring := lit "550e8400-e29b-41d4-a716-446655440000".
Definition id2 : jsstring := lit "6ba7b810-9dad-41d1-80b4-00c04fd430c8".

Definition post (text : string) : create_request :=
  CreateRequest (Some (Str (lit text))) (lit "http") (lit "localhost:3000").

(** A store holding [text] under [id1] until [deadline]. *)
Definition holding (text : string) (deadline : Z) : store :=
  {[ id1 := Secret (lit text) deadline ]}.

(** Three retrievals of [id1] among other callbacks. *)
Definition busy : list request :=
  [Health; Retrieve id1 5; Create (post "other") id2 6; Retrieve id1 7;
   Cleanup 8; Retrieve id2 9; Retrieve id1 10].

End Sample.

Module SamplePage.

Import Client.

Definition classes (el : elem) : gset string :=
  match el with
  | viewCreate => {[ "view"; "active" ]}
  | viewResult | viewRead | viewError => {[ "view" ]}
  | loading => {[ "loading"; "hidden" ]}
  | _ => ∅
  end.

(** The page as loaded, on the create view. *)
Definition home : page := Page classes (lit "/") [] true [] [] [] Null [].

(** The page opened on a link, while the request is under way. *)
Definition opening : page :=
  Page (λ el, match el with
              | loading => {[ "loading" ]}
              | viewCreate => {[ "view" ]}
              | _ => classes el
              end)
    (lit "/?secret=550e8400-e29b-41d4-a716-446655440000") [] true [] [] [] Null [].

End SamplePage.

(** * Properties *)

(** ** [trim] *)

Section Trim.

Lemma trimStart_starts s : starts_with_space (trimStart s) = false.
Proof.
  induction s as [|c r IH]; simpl; [done|].
  destruct (is_space c) eqn:Hc; [done|]. simpl. by rewrite Hc.
Qed.

Lemma trimStart_snoc s c :
  is_space c = false → trimStart (s ++ [c]) = trimStart s ++ [c].
Proof.
  intros Hc. induction s as [|d r IH]; simpl.
  - by rewrite Hc.
  - by destruct (is_space d).
Qed.

Lemma trimStart_id s : starts_with_space s = false → trimStart s = s.
Proof. destruct s as [|c r]; simpl; [done|]. by intros ->. Qed.

Lemma trimStart_nil s : trimStart s = [] ↔ forallb is_space s = true.
Proof.
  induction s as [|c r IH]; simpl; [done|].
  destruct (is_space c); simpl; [done|]. split; [done|]. intros [=].
Qed.

Lemma trimEnd_ends s : ends_with_space (trimEnd s) = false.
Proof.
  unfold ends_with_space, trimEnd. rewrite rev_involutive.
  apply trimStart_starts.
Qed.

Lemma trimEnd_id s : ends_with_space s = false → trimEnd s = s.
Proof.
  unfold ends_with_space, trimEnd. intros H.
  by rewrite trimStart_id, rev_involutive.
Qed.

(** Trimming the end leaves a first code unit that is not a space in
    place. *)
Lemma trimEnd_cons c r :
  is_space c = false → ∃ r', trimEnd (c :: r) = c :: r'.
Proof.
  intros Hc. unfold trimEnd. simpl rev.
  rewrite trimStart_snoc by done. rewrite rev_app_distr. simpl. eauto.
Qed.

Lemma trim_starts s : starts_with_space (trim s) = false.
Proof.
  unfold trim. pose proof (trimStart_starts s) as H.
  destruct (trimStart s) as [|c r]; [done|]. simpl in H.
  destruct (trimEnd_cons c r H) as [r' ->]. done.
Qed.

Lemma trim_ends s : ends_with_space (trim s) = false.
Proof. apply trimEnd_ends. Qed.

Lemma trim_nil s : trim s = [] ↔ forallb is_space s = true.
Proof.
  rewrite <-trimStart_nil. unfold trim.
  pose proof (trimStart_starts s) as H.
  destruct (trimStart s) as [|c r]; [done|]. simpl in H.
  destruct (trimEnd_cons c r H) as [r' ->]. done.
Qed.

Lemma trim_id s :
  starts_with_space s = false → ends_with_space s = false → trim s = s.
Proof.
  intros H1 H2. unfold trim. rewrite trimStart_id by done. by apply trimEnd_id.
Qed.

Lemma trim_trimmed s : trim s ≠ [] → trimmed (trim s).
Proof. intros H. split; [done|]. split; [apply trim_starts | apply trim_ends]. Qed.

Lemma length_zero s : (Js.length s =? 0) = true ↔ s = [].
Proof.
  unfold Js.length. rewrite Z.eqb_eq. destruct s; simpl; [done|]. split; [lia|done].
Qed.

End Trim.

(** ** The clean-up loop *)

Section Sweep.

Variable now : Z.

(** The loop run over the entries of [m] on a map [base] with
    [cleanedCount = c]: the entries of [base] whose key holds a stale
    entry in [m] go, and the counter grows by the number of stale
    entries of [m]. *)
Lemma sweep_fold (m : store) : ∀ (base : store) (c : Z),
  let r := map_fold (sweep_entry now) (base, c) m in
  (∀ k, r.1 !! k =
        match m !! k with
        | Some e => if expiresAt e <? now then None else base !! k
        | None => base !! k
        end)
  ∧ r.2 = c + Z.of_nat (size (filter (stale now) m)).
Proof.
  induction m as [|i x m Hi Hfirst IH] using map_first_key_ind; intros base c.
  - rewrite map_fold_empty, map_filter_empty, map_size_empty. simpl.
    split; [|lia]. intros k. by rewrite lookup_empty.
  - rewrite map_fold_insert_first_key by done.
    destruct (IH base c) as [Hl Hc]. simpl in *.
    unfold sweep_entry at 1 3. rewrite map_filter_insert.
    destruct (Z.ltb_spec (expiresAt x) now) as [Hx|Hx]; simpl.
    + rewrite decide_True by done. split.
      * intros k. rewrite lookup_delete, lookup_insert.
        destruct (decide (i = k)) as [->|Hne]; [|apply Hl].
        by rewrite (proj2 (Z.ltb_lt _ _) Hx).
      * rewrite map_size_insert_None, Hc; [lia|].
        apply map_lookup_filter_None. by left.
    + rewrite decide_False by (unfold stale; simpl; lia). split.
      * intros k. rewrite lookup_insert, Hl.
        destruct (decide (i = k)) as [->|Hne]; [|done].
        rewrite Hi. by destruct (Z.ltb_spec (expiresAt x) now); [lia|].
      * by rewrite delete_id.
Qed.

Lemma sweep_lookup (s : store) k :
  (sweep s now).1 !! k =
  match s !! k with
  | Some e => if expiresAt e <? now then None else Some e
  | None => None
  end.
Proof.
  unfold sweep. destruct (sweep_fold s s 0) as [-> _].
  by destruct (s !! k) as [e|].
Qed.

Lemma sweep_count (s : store) :
  (sweep s now).2 = Z.of_nat (size (filter (stale now) s)).
Proof. unfold sweep. destruct (sweep_fold s s 0) as [_ ->]. lia. Qed.

(** What the loop computes, whatever the order in which the entries are
    visited: the entries that are not stale stay. *)
Lemma sweep_spec (s : store) :
  (sweep s now).1 = filter (λ kv, ¬ stale now kv) s.
Proof.
  apply map_eq. intros k. rewrite sweep_lookup, map_lookup_filter.
  destruct (s !! k) as [e|]; simpl; [|done].
  unfold stale. simpl.
  destruct (Z.ltb_spec (expiresAt e) now).
  - by rewrite option_guard_False by tauto.
  - by rewrite option_guard_True by lia.
Qed.

Lemma sweep_size (s : store) :
  Z.of_nat (size (sweep s now).1) = Z.of_nat (size s) - (sweep s now).2.
Proof.
  rewrite sweep_count, sweep_spec.
  assert (size s = size (filter (stale now) s)
                   + size (filter (λ kv, ¬ stale now kv) s))%nat as Hsplit.
  { rewrite <-map_size_disj_union by apply map_disjoint_filter_complement.
    by rewrite map_filter_union_complement. }
  lia.
Qed.

End Sweep.

(** ** The handlers, case by case *)

Section Handlers.

Implicit Types (s : store) (id uuid text : jsstring) (now : Z).

Lemma content_missing_str text : content_missing (Str text) = true ↔ trim text = [].
Proof.
  unfold content_missing. simpl. rewrite negb_involutive, orb_false_r.
  rewrite orb_true_iff, !length_zero. split; [|by right].
  intros [->|H]; done.
Qed.

(** A string whose trimmed form is not empty and that has at most
    100000 code units is stored; the answer is 200 with the identifier,
    or 500 when the expiry instant is not a time value. *)
Lemma create_accept s req text uuid now :
  req_body req = Some (Str text) →
  trim text ≠ [] →
  Js.length text ≤ 100000 →
  create_secret s req uuid now =
    (<[uuid := Secret (trim text) (now + 86400000)]> s,
     if valid_time (now + 86400000)
     then Response 200
            (CreatedBody uuid (secret_url req uuid) (now + 86400000) expires_in)
     else create_failed).
Proof.
  intros Hb Ht Hl. unfold create_secret. rewrite Hb.
  destruct (content_missing (Str text)) eqn:Hm.
  { by apply content_missing_str in Hm. }
  destruct (Z.gtb_spec (Js.length text) 100000) as [?|_]; [lia|].
  unfold SECRET_TTL_HOURS.
  replace (now + 24 * 60 * 60 * 1000) with (now + 86400000) by lia.
  by destruct (valid_time (now + 86400000)).
Qed.

Lemma valid_time_spec v :
  valid_time v = true ↔ -8640000000000000 ≤ v ≤ 8640000000000000.
Proof. unfold valid_time. rewrite andb_true_iff, !Z.leb_le. lia. Qed.

Lemma reaches_set_spec req :
  reaches_set req = true ↔
  ∃ text, req_body req = Some (Str text) ∧ trim text ≠ []
    ∧ Js.length text ≤ 100000.
Proof.
  unfold reaches_set. split.
  - destruct (req_body req) as [[| |b|n|text|]|]; try done.
    intros [Hm Hl]%andb_true_iff. exists text. split; [done|].
    apply negb_true_iff in Hm, Hl. split.
    + intros H%content_missing_str. congruence.
    + by destruct (Z.gtb_spec (Js.length text) 100000).
  - intros (text & -> & Ht & Hl). apply andb_true_iff. split.
    + apply negb_true_iff, not_true_iff_false. by intros H%content_missing_str.
    + apply negb_true_iff. by destruct (Z.gtb_spec (Js.length text) 100000); [lia|].
Qed.

(** A creation that does not reach [secrets.set] leaves the store as it
    is. *)
Lemma create_rejected s req uuid now :
  reaches_set req = false → (create_secret s req uuid now).1 = s.
Proof.
  unfold reaches_set, create_secret.
  destruct (req_body req) as [[| |b|n|text|]|]; try done.
  - by destruct (content_missing (Bool b)).
  - by destruct (content_missing (Number n)).
  - destruct (content_missing (Str text)); [done|]. simpl.
    by destruct (Js.length text >? 100000).
Qed.

(** While the expiry instant is a time value, the creations that reach
    [secrets.set] are the ones answered with the new identifier. *)
Lemma set_iff_created s req uuid now :
  valid_time (now + 86400000) = true →
  reaches_set req = true ↔
  (create_secret s req uuid now).2
  = Response 200 (CreatedBody uuid (secret_url req uuid) (now + 86400000) expires_in).
Proof.
  intros Hv. split.
  - intros (text & Hb & Ht & Hl)%reaches_set_spec.
    by rewrite (create_accept _ _ text), Hv.
  - intros Hr. destruct (reaches_set req) eqn:E; [done|]. exfalso.
    revert Hr. unfold reaches_set, create_secret in *.
    destruct (req_body req) as [[| |b|n|text|]|]; try done.
    + by destruct (content_missing (Bool b)).
    + by destruct (content_missing (Number n)).
    + destruct (content_missing (Str text)); [done|]. simpl in E.
      by destruct (Js.length text >? 100000).
Qed.

(** Beyond the range of time values the entry is stored all the same,
    and the answer is 500. *)
Lemma create_beyond_time_range s req text uuid now :
  req_body req = Some (Str text) →
  trim text ≠ [] →
  Js.length text ≤ 100000 →
  valid_time (now + 86400000) = false →
  create_secret s req uuid now
  = (<[uuid := Secret (trim text) (now + 86400000)]> s, create_failed).
Proof. intros Hb Ht Hl Hv. by rewrite (create_accept _ _ text), Hv. Qed.

(** The handler either refuses the request and leaves the store alone,
    or is in the case of [create_accept]. *)
Lemma create_cases s req uuid now :
  (∃ resp, create_secret s req uuid now = (s, resp)
     ∧ (resp = create_failed ∨ resp = content_required
        ∨ resp = content_too_large))
  ∨ ∃ text, req_body req = Some (Str text) ∧ trim text ≠ []
      ∧ Js.length text ≤ 100000.
Proof.
  unfold create_secret.
  destruct (req_body req) as [v|]; [|left; eauto].
  destruct (content_missing v) eqn:Hm; [left; eauto|].
  destruct v as [| |b|n|text|]; try (left; by eauto).
  destruct (Z.gtb_spec (Js.length text) 100000) as [?|Hle]; [left; by eauto 6|].
  right. exists text. split; [done|]. split; [|done].
  intros Hnil. apply content_missing_str in Hnil. congruence.
Qed.

Lemma shape_ok id :
  Js.length id = 36 → negb (truthy (Str id)) || negb (Js.length id =? 36) = false.
Proof. intros H. simpl. rewrite H. done. Qed.

Lemma read_absent s id now :
  s !! id = None → read_secret s id now = (s, not_found).
Proof.
  intros H. unfold read_secret. rewrite H.
  by destruct (negb (truthy (Str id)) || negb (Js.length id =? 36)).
Qed.

Lemma read_live s id e now :
  Js.length id = 36 → s !! id = Some e → expiresAt e >= now →
  read_secret s id now = (delete id s, Response 200 (ContentBody (content e))).
Proof.
  intros Hid He Hnow. unfold read_secret. rewrite shape_ok, He by done.
  by destruct (Z.ltb_spec (expiresAt e) now); [lia|].
Qed.

Lemma read_expired s id e now :
  Js.length id = 36 → s !! id = Some e → expiresAt e < now →
  read_secret s id now = (delete id s, has_expired).
Proof.
  intros Hid He Hnow. unfold read_secret. rewrite shape_ok, He by done.
  by destruct (Z.ltb_spec (expiresAt e) now); [|lia].
Qed.

(** The four ways the handler can go. *)
Lemma read_cases s id now :
  read_secret s id now = (s, not_found)
  ∨ ∃ e, s !! id = Some e
      ∧ (read_secret s id now = (delete id s, has_expired) ∧ expiresAt e < now
         ∨ read_secret s id now
             = (delete id s, Response 200 (ContentBody (content e)))
           ∧ now ≤ expiresAt e).
Proof.
  unfold read_secret.
  destruct (negb (truthy (Str id)) || negb (Js.length id =? 36)); [by left|].
  destruct (s !! id) as [e|]; [|by left]. right. exists e. split; [done|].
  destruct (Z.ltb_spec (expiresAt e) now); [left|right]; done.
Qed.

(** The store after a retrieval: at most the asked entry is gone. *)
Lemma read_lookup_ne s id now k :
  k ≠ id → (read_secret s id now).1 !! k = s !! k.
Proof.
  intros Hk. destruct (read_cases s id now) as [->|(e & _ & [[-> _]|[-> _]])];
    simpl; by rewrite ?lookup_delete_ne.
Qed.

End Handlers.

(** ** Executions *)

Section Runs.

Implicit Types (s : store) (id : jsstring) (tr : list request).

Lemma run_cons s r tr :
  run s (r :: tr) =
    ((run (step s r).1 tr).1, (r, (step s r).2) :: (run (step s r).1 tr).2).
Proof. simpl. destruct (step s r) as [s1 o]. simpl. by destruct (run s1 tr). Qed.

Lemma step_create s req uuid now :
  step s (Create req uuid now)
  = ((create_secret s req uuid now).1, Reply (create_secret s req uuid now).2).
Proof. simpl. by destruct (create_secret s req uuid now). Qed.

Lemma step_retrieve s id now :
  step s (Retrieve id now)
  = ((read_secret s id now).1, Reply (read_secret s id now).2).
Proof. simpl. by destruct (read_secret s id now). Qed.

Lemma step_cleanup s now :
  step s (Cleanup now) = ((sweep s now).1, Cleaned (sweep s now).2).
Proof. simpl. by destruct (sweep s now). Qed.

(** An identifier that is not in the store stays out of it as long as
    no creation draws it. *)
Lemma step_absent s id r :
  s !! id = None → issues id r = false → (step s r).1 !! id = None.
Proof.
  intros Hs Hr. destruct r as [req uuid now|id' now|now|]; [| | |done].
  - rewrite step_create. simpl in *. apply bool_decide_eq_false in Hr.
    destruct (create_cases s req uuid now)
      as [(resp & -> & _)|(text & Hb & Ht & Hl)]; [done|].
    rewrite (create_accept _ _ text) by done. simpl.
    by rewrite lookup_insert_ne.
  - rewrite step_retrieve. simpl.
    destruct (read_cases s id' now) as [->|(e & _ & [[-> _]|[-> _]])]; simpl;
      [done|..]; by apply lookup_delete_None; right.
  - rewrite step_cleanup. simpl. by rewrite sweep_lookup, Hs.
Qed.

(** A stored entry stays as it is through any callback that neither
    draws its identifier, nor retrieves it, nor finds it expired. *)
Lemma step_kept s id e r :
  s !! id = Some e → issues id r = false → retrieves id r = false →
  sees_expired id (expiresAt e) r = false →
  (step s r).1 !! id = Some e.
Proof.
  intros Hs Hi Hr Hx. destruct r as [req uuid now|id' now|now|]; [| | |done].
  - rewrite step_create. simpl in *. apply bool_decide_eq_false in Hi.
    destruct (create_cases s req uuid now)
      as [(resp & -> & _)|(text & Hb & Ht & Hl)]; [done|].
    rewrite (create_accept _ _ text) by done. simpl.
    by rewrite lookup_insert_ne.
  - rewrite step_retrieve. simpl in *. apply bool_decide_eq_false in Hr.
    by rewrite read_lookup_ne.
  - rewrite step_cleanup. simpl in *. rewrite sweep_lookup, Hs.
    by rewrite Hx.
Qed.

Lemma calls_cons id r tr :
  calls id (r :: tr) = if retrieves id r then r :: calls id tr else calls id tr.
Proof.
  unfold calls. rewrite filter_cons.
  destruct (retrieves id r); [by rewrite decide_True|by rewrite decide_False].
Qed.

Lemma replies_cons id r o h :
  replies id ((r, o) :: h) = if retrieves id r then o :: replies id h else replies id h.
Proof.
  unfold replies. rewrite filter_cons. simpl.
  destruct (retrieves id r); [by rewrite decide_True|by rewrite decide_False].
Qed.

(** Once an identifier is out of the store, every retrieval of it is
    answered with the same 404, as long as no creation draws it
    again. *)
Lemma absent_replies tr : ∀ s id,
  s !! id = None →
  Forall (λ r, issues id r = false) tr →
  replies id (run s tr).2 = replicate (List.length (calls id tr)) (Reply not_found).
Proof.
  induction tr as [|r tr IH]; intros s id Hs Htr; [done|].
  apply Forall_cons in Htr as [Hr Htr].
  rewrite run_cons, calls_cons. simpl. rewrite replies_cons.
  rewrite IH by eauto using step_absent.
  destruct (retrieves id r) eqn:Hq; [|done].
  destruct r as [|id' now| |]; try done. simpl in Hq.
  apply bool_decide_eq_true in Hq as ->.
  rewrite step_retrieve. simpl. by rewrite read_absent.
Qed.

End Runs.

(** ** Single delivery *)

Section Delivery.

Import Sample.

(** C1.  Take an identifier whose entry is in the store, and any sequence
    of callbacks (any interleaving of retrievals of that identifier with
    other requests and clean-ups) during which the entry is not seen as
    expired and [uuidv4()] does not draw the identifier again.  Then the
    retrievals of that identifier are answered as follows: the first one
    gets the content, every other one gets the 404 "not found" response.
    Each callback runs to completion on the event loop, so the sequences
    are all the executions there are. *)
Theorem at_most_once (tr : list request) : ∀ (s : store) id e,
  s !! id = Some e →
  Js.length id = 36 →
  Forall (λ r, issues id r = false) tr →
  Forall (λ r, sees_expired id (expiresAt e) r = false) tr →
  replies id (run s tr).2 =
    match calls id tr with
    | [] => []
    | _ :: others =>
        Reply (Response 200 (ContentBody (content e)))
        :: replicate (List.length others) (Reply not_found)
    end.
Proof.
  induction tr as [|r tr IH]; intros s id e Hs Hid Hiss Hexp; [done|].
  apply Forall_cons in Hiss as [Hi Hiss].
  apply Forall_cons in Hexp as [Hx Hexp].
  rewrite run_cons, calls_cons. simpl. rewrite replies_cons.
  destruct (retrieves id r) eqn:Hq.
  - destruct r as [|id' now| |]; try done. simpl in Hq, Hx.
    apply bool_decide_eq_true in Hq as ->.
    rewrite bool_decide_eq_true_2 in Hx by done. simpl in Hx.
    apply Z.ltb_ge in Hx.
    rewrite step_retrieve, (read_live _ _ e) by (done || lia). simpl.
    by rewrite absent_replies by (done || apply lookup_delete_eq).
  - apply (IH _ _ e); try done. by apply step_kept.
Qed.

Lemma at_most_once_witness :
  replies id1 (run (holding "hello" 100) busy).2 =
    [Reply (Response 200 (ContentBody (lit "hello")));
     Reply not_found; Reply not_found].
Proof.
  refine (eq_trans
    (at_most_once busy (holding "hello" 100) id1 (Secret (lit "hello") 100)
       _ _ _ _) _).
  - reflexivity.
  - reflexivity.
  - repeat constructor.
  - repeat constructor.
  - vm_compute. reflexivity.
Defined.




(** C3.  After an identifier has left the store, by a retrieval that
    returned its content, by a retrieval that found it expired, or by the
    clean-up job, every later retrieval of it is answered 404 "not
    found", whatever else runs in between, as long as [uuidv4()] does not
    draw the identifier again. *)
Theorem no_resurrection (s s' : store) id (tr : list request) :
  removed id s s' →
  Forall (λ r, issues id r = false) tr →
  replies id (run s' tr).2
  = replicate (List.length (calls id tr)) (Reply not_found).
Proof.
  intros Hrem Htr. apply absent_replies; [|done].
  destruct Hrem as [s e now Hs Hid He|s e now Hs Hid He|s e now Hs He].
  - rewrite (read_live _ _ e) by (done || lia). apply lookup_delete_eq.
  - rewrite (read_expired _ _ e) by done. apply lookup_delete_eq.
  - rewrite sweep_lookup, Hs. by rewrite (proj2 (Z.ltb_lt _ _) He).
Qed.

Lemma no_resurrection_witness :
  replies id1 (run (sweep (holding "hello" 100) 101).1 busy).2
  = [Reply not_found; Reply not_found; Reply not_found].
Proof.
  refine (eq_trans
    (no_resurrection (holding "hello" 100) _ id1 busy
       (removed_swept id1 _ (Secret (lit "hello") 100) 101 _ _) _) _).
  - reflexivity.
  - simpl. lia.
  - repeat constructor.
  - vm_compute. reflexivity.
Defined.

End Delivery.

(** ** Creation *)

Section Creation.

Import Sample.

(** C4, as the code has it.  A content that passes validation, stored
    under a 36-character identifier and retrieved no later than its
    expiry instant, comes back with the white space at both ends
    removed; it comes back unchanged when it neither starts nor ends
    with white space. *)
Theorem round_trip (s : store) req text uuid now later :
  req_body req = Some (Str text) →
  trim text ≠ [] →
  Js.length text ≤ 100000 →
  Js.length uuid = 36 →
  later ≤ now + 86400000 →
  (read_secret (create_secret s req uuid now).1 uuid later).2
  = Response 200 (ContentBody (trim text))
  ∧ (starts_with_space text = false → ends_with_space text = false →
     trim text = text).
Proof.
  intros Hb Ht Hl Hid Hlater. split; [|apply trim_id].
  rewrite (create_accept _ _ text) by done. simpl.
  by rewrite (read_live _ _ (Secret (trim text) (now + 86400000)))
    by (done || apply lookup_insert_eq || simpl; lia).
Qed.

Lemma round_trip_witness :
  (read_secret (create_secret ∅ (post "hello") id1 0).1 id1 1).2
  = Response 200 (ContentBody (lit "hello")).
Proof.
  refine (eq_trans (proj1
    (round_trip ∅ (post "hello") (lit "hello") id1 0 1 _ _ _ _ _)) _).
  - reflexivity.
  - discriminate.
  - vm_compute. discriminate.
  - reflexivity.
  - lia.
  - reflexivity.
Defined.

(** C4 fails on a content with white space at an end: it is accepted,
    and what comes back is not what was sent. *)
Lemma round_trip_strips_spaces :
  status (create_secret ∅ (post " hi") id1 0).2 = 200
  ∧ (read_secret (create_secret ∅ (post " hi") id1 0).1 id1 0).2
    = Response 200 (ContentBody (lit "hi"))
  ∧ lit "hi" ≠ lit " hi".
Proof. split; [reflexivity|]. split; [vm_compute; reflexivity|discriminate]. Qed.

(** C7.  An accepted creation at [now] stores the entry with
    [expiresAt = now + 24 h] (in milliseconds; [SECRET_TTL_HOURS] is
    the constant 24) and answers with the identifier drawn and that same
    instant.  The clock is taken to be such that the expiry instant is
    still a time value of [Date], that is at most 8.64e15 ms from the
    epoch; beyond that, see [create_beyond_time_range]. *)
Theorem create_sets_expiry (s : store) req text uuid now :
  req_body req = Some (Str text) →
  trim text ≠ [] →
  Js.length text ≤ 100000 →
  -8640000000000000 ≤ now + 86400000 ≤ 8640000000000000 →
  ∃ e url,
    (create_secret s req uuid now).1 !! uuid = Some e
    ∧ expiresAt e = now + SECRET_TTL_HOURS * 3600000
    ∧ SECRET_TTL_HOURS = 24
    ∧ (create_secret s req uuid now).2
      = Response 200 (CreatedBody uuid url (expiresAt e) expires_in).
Proof.
  intros Hb Ht Hl Hnow. apply valid_time_spec in Hnow.
  rewrite (create_accept _ _ text), Hnow by done. simpl.
  eexists _, _. rewrite lookup_insert_eq. split; [done|]. simpl.
  unfold SECRET_TTL_HOURS. split; [lia|]. done.
Qed.

Lemma create_sets_expiry_witness :
  ∃ e url,
    (create_secret ∅ (post "hello") id1 1700000000000).1 !! id1 = Some e
    ∧ expiresAt e = 1700000000000 + SECRET_TTL_HOURS * 3600000
    ∧ SECRET_TTL_HOURS = 24
    ∧ (create_secret ∅ (post "hello") id1 1700000000000).2
      = Response 200 (CreatedBody id1 url (expiresAt e) expires_in).
Proof.
  apply (create_sets_expiry ∅ (post "hello") (lit "hello") id1 1700000000000).
  - reflexivity.
  - discriminate.
  - vm_compute. discriminate.
  - lia.
Defined.

(** C9.  A creation whose content is the empty string, consists of white
    space only, or has more than 100000 code units is answered 400 with
    an error, and the store is what it was. *)
Theorem invalid_content_rejected (s : store) req text uuid now :
  req_body req = Some (Str text) →
  text = [] ∨ forallb is_space text = true ∨ Js.length text > 100000 →
  ∃ msg, create_secret s req uuid now = (s, Response 400 (ErrorBody msg)).
Proof.
  intros Hb Hbad. unfold create_secret. rewrite Hb.
  destruct (content_missing (Str text)) eqn:Hm; [by eexists|].
  destruct (Z.gtb_spec (Js.length text) 100000) as [?|Hle]; [by eexists|].
  exfalso. apply not_true_iff_false in Hm. apply Hm, content_missing_str.
  destruct Hbad as [->|[Hsp|Hlen]]; [done| |lia].
  by apply trim_nil.
Qed.

Lemma invalid_content_rejected_witness :
  ∃ msg, create_secret (holding "hello" 100) (post "  ") id2 5
         = (holding "hello" 100, Response 400 (ErrorBody msg)).
Proof.
  apply (invalid_content_rejected _ (post "  ") (lit "  ") id2 5).
  - reflexivity.
  - right; left. reflexivity.
Defined.

End Creation.

(** ** Failed retrievals *)

Section NotFound.

Import Sample.

(** C5, as the code has it.  A retrieval that hands out no content is
    answered 404.  When the identifier is not in the store, whether it
    was never there or has been removed, the answer is the one "not
    found or already accessed" response.  The only other answer is
    "Secret has expired", given when the entry is there with
    [expiresAt < now]. *)
Theorem not_found_responses (s : store) id now :
  returns_payload (read_secret s id now).2 = false →
  status (read_secret s id now).2 = 404
  ∧ (s !! id = None → (read_secret s id now).2 = not_found)
  ∧ (∀ e, s !! id = Some e → Js.length id = 36 → expiresAt e < now →
          (read_secret s id now).2 = has_expired)
  ∧ ((read_secret s id now).2 = not_found
     ∨ (read_secret s id now).2 = has_expired
       ∧ ∃ e, s !! id = Some e ∧ expiresAt e < now).
Proof.
  intros Hno. split; [|split; [|split]].
  - destruct (read_cases s id now) as [->|(e & _ & [[-> _]|[H _]])];
      [done..|]. by rewrite H in Hno.
  - intros Hs. by rewrite read_absent.
  - intros e He Hid Hx. by rewrite (read_expired _ _ e).
  - destruct (read_cases s id now) as [->|(e & He & [[-> Hx]|[H _]])].
    + by left.
    + right. eauto.
    + by rewrite H in Hno.
Qed.

Lemma not_found_responses_witness :
  status (read_secret (holding "hello" 100) id1 200).2 = 404
  ∧ (read_secret (holding "hello" 100) id1 200).2 = has_expired
  ∧ (read_secret (delete id1 (holding "hello" 100)) id1 200).2 = not_found.
Proof.
  split; [|split].
  - apply (not_found_responses (holding "hello" 100) id1 200). reflexivity.
  - refine (proj1 (proj2 (proj2
      (not_found_responses (holding "hello" 100) id1 200 _)))
      (Secret (lit "hello") 100) _ _ _).
    + reflexivity.
    + reflexivity.
    + reflexivity.
    + simpl. lia.
  - refine (proj1 (proj2
      (not_found_responses (delete id1 (holding "hello" 100)) id1 200 _)) _).
    + vm_compute. reflexivity.
    + vm_compute. reflexivity.
Defined.

(** C5 fails for an expired entry that is still stored: the response is
    not the one given for an identifier that is not there. *)
Lemma expired_is_told_apart :
  (read_secret (holding "hello" 100) id1 200).2 = has_expired
  ∧ (read_secret ∅ id1 200).2 = not_found
  ∧ (read_secret (holding "hello" 100) id1 200).2 ≠ (read_secret ∅ id1 200).2.
Proof. split; [reflexivity|]. split; [reflexivity|]. vm_compute. discriminate. Qed.

End NotFound.

(** ** Clean-up *)

Section Cleanup.

Import Sample.

(** C6, as the code has it.  The clean-up at [t] deletes the entries
    with [expiresAt < t] and no other: what is left are the entries with
    [t ≤ expiresAt], unchanged.  [cleanedCount] is the number of entries
    deleted. *)
Theorem sweep_removes_stale (s : store) t :
  (∀ id e, (sweep s t).1 !! id = Some e ↔ s !! id = Some e ∧ t ≤ expiresAt e)
  ∧ (sweep s t).2 = Z.of_nat (size (filter (stale t) s))
  ∧ (sweep s t).2 = Z.of_nat (size s) - Z.of_nat (size (sweep s t).1).
Proof.
  split; [|split].
  - intros id e. rewrite sweep_lookup.
    destruct (s !! id) as [e'|]; [|by split; [|intros [? _]]].
    destruct (Z.ltb_spec (expiresAt e') t).
    + split; [done|]. intros [[= ->] ?]. lia.
    + split; [intros [= ->]; by split|by intros [? _]].
  - apply sweep_count.
  - pose proof (sweep_size t s). lia.
Qed.

(** C6 fails at the boundary: an entry with [expiresAt = t] survives the
    clean-up at [t]. *)
Lemma sweep_at_deadline :
  expiresAt (Secret (lit "hello") 100) ≤ 100
  ∧ sweep (holding "hello" 100) 100 = (holding "hello" 100, 0)
  ∧ (sweep (holding "hello" 100) 100).1 !! id1 = Some (Secret (lit "hello") 100).
Proof. split; [simpl; lia|]. split; vm_compute; reflexivity. Qed.

End Cleanup.

(** ** Invariants of executions *)

Section Invariants.

Import Sample.

(** What one callback does to the size of the store. *)
Lemma step_size (s : store) r :
  fresh_ids s [r] = true →
  Z.of_nat (size (step s r).1)
  = Z.of_nat (size s) + stored (r, (step s r).2) - deleted (r, (step s r).2).
Proof.
  intros Hf. destruct r as [req uuid now|id now|now|].
  - simpl in Hf. rewrite andb_true_r in Hf. apply bool_decide_eq_true in Hf.
    rewrite step_create. unfold stored, deleted. cbn [fst snd].
    destruct (reaches_set req) eqn:E.
    + apply reaches_set_spec in E as (text & Hb & Ht & Hl).
      rewrite (create_accept _ _ text) by done. cbn [fst snd].
      rewrite map_size_insert_None by done.
      destruct (valid_time (now + 86400000)); simpl; lia.
    + destruct (create_cases s req uuid now)
        as [(resp & -> & [->|[->| ->]])|Hacc]; [simpl; lia..|].
      apply reaches_set_spec in Hacc. congruence.
  - rewrite step_retrieve. unfold stored, deleted. simpl.
    destruct (read_cases s id now) as [->|(e & He & [[-> _]|[-> _]])]; simpl;
      [lia|..]; rewrite map_size_delete, He; simpl;
      assert (size s ≠ 0%nat) by (by apply (map_size_ne_0_lookup_2 _ id));
      lia.
  - rewrite step_cleanup. unfold stored, deleted. simpl.
    rewrite sweep_size. lia.
  - unfold stored, deleted. simpl. lia.
Qed.

Lemma run_size (tr : list request) : ∀ s : store,
  fresh_ids s tr = true →
  Z.of_nat (size (run s tr).1)
  = Z.of_nat (size s) + total stored (run s tr).2 - total deleted (run s tr).2.
Proof.
  induction tr as [|r tr IH]; intros s Hf; [simpl; lia|].
  assert (fresh_ids s [r] = true ∧ fresh_ids (step s r).1 tr = true) as [H1 H2].
  { simpl in *. rewrite andb_true_r. by apply andb_true_iff in Hf. }
  rewrite run_cons. simpl. rewrite IH, step_size by done. lia.
Qed.

(** [secrets.set] does not look whether the identifier is taken: were
    [uuidv4()] to draw a stored identifier, the entry would be replaced
    and the size would not grow. *)
Lemma reused_id_overwrites :
  (run ∅ [Create (post "one") id1 1; Create (post "two") id1 2]).1
  = {[ id1 := Secret (lit "two") 86400002 ]}.
Proof. vm_compute. reflexivity. Qed.

(** C8.  After any sequence of callbacks run from the empty store, in
    which each identifier drawn is not in the store when it is drawn,
    the size of the store, which is what the health endpoint reports, is
    the number of [secrets.set] calls made by creations minus the number
    of entries deleted by retrievals and clean-ups. *)
Theorem size_accounting (tr : list request) :
  fresh_ids ∅ tr = true →
  Z.of_nat (size (run ∅ tr).1)
  = total stored (run ∅ tr).2 - total deleted (run ∅ tr).2
  ∧ health (run ∅ tr).1
    = Response 200
        (HealthBody (total stored (run ∅ tr).2 - total deleted (run ∅ tr).2)).
Proof.
  intros Hf. pose proof (run_size tr ∅ Hf) as H.
  rewrite map_size_empty in H. unfold health. rewrite H.
  split; [lia|]. by rewrite Z.add_0_l.
Qed.

Lemma size_accounting_witness :
  Z.of_nat (size (run ∅ (Create (post "hello") id1 1 :: busy)).1) = 2 - 2.
Proof.
  refine (eq_trans (proj1
    (size_accounting (Create (post "hello") id1 1 :: busy) _)) _).
  - vm_compute. reflexivity.
  - vm_compute. reflexivity.
Defined.

Lemma empty_trimmed : all_trimmed ∅.
Proof. intros id e. by rewrite lookup_empty. Qed.

Lemma step_trimmed (s : store) r : all_trimmed s → all_trimmed (step s r).1.
Proof.
  intros Hs id e. destruct r as [req uuid now|id' now|now|]; [| | |apply Hs].
  - rewrite step_create.
    destruct (create_cases s req uuid now)
      as [(resp & -> & _)|(text & Hb & Ht & Hl)]; [apply Hs|].
    rewrite (create_accept _ _ text) by done. simpl.
    rewrite lookup_insert. case_decide; [|apply Hs].
    intros [= <-]. simpl. by apply trim_trimmed.
  - rewrite step_retrieve.
    destruct (read_cases s id' now) as [->|(e' & _ & [[-> _]|[-> _]])]; simpl;
      [apply Hs|..]; intros H%lookup_delete_Some; by apply (Hs id), H.
  - rewrite step_cleanup. simpl. rewrite sweep_lookup.
    destruct (s !! id) as [e'|] eqn:He; [|done].
    destruct (expiresAt e' <? now); [done|]. intros [= <-]. by apply (Hs id).
Qed.

(** C10.  In every store reached from the empty one, each stored content
    is non-empty and neither starts nor ends with white space. *)
Theorem stored_contents_trimmed (tr : list request) id e :
  (run ∅ tr).1 !! id = Some e →
  content e ≠ []
  ∧ starts_with_space (content e) = false
  ∧ ends_with_space (content e) = false.
Proof.
  cut (∀ s : store, all_trimmed s → all_trimmed (run s tr).1).
  { intros H Hl. by apply (H ∅ empty_trimmed id e). }
  induction tr as [|r tr IH]; intros s Hs; [done|].
  rewrite run_cons. simpl. by apply IH, step_trimmed.
Qed.

Lemma stored_contents_trimmed_witness :
  content (Secret (lit "hi") 86400001) ≠ []
  ∧ starts_with_space (content (Secret (lit "hi") 86400001)) = false
  ∧ ends_with_space (content (Secret (lit "hi") 86400001)) = false.
Proof.
  apply (stored_contents_trimmed [Create (post "  hi ") id1 1; Health] id1).
  vm_compute. reflexivity.
Defined.

End Invariants.


(** * Further properties of the server *)

(** ** The handlers *)

Section HandlerFacts.

Import Sample.

Implicit Types (s : store) (id uuid text : jsstring) (now : Z).

Lemma trimStart_length text : Js.length (trimStart text) ≤ Js.length text.
Proof.
  unfold Js.length. induction text as [|c r IH]; simpl; [lia|].
  destruct (is_space c); simpl; lia.
Qed.

Lemma trim_length text : Js.length (trim text) ≤ Js.length text.
Proof.
  unfold trim, trimEnd. pose proof (trimStart_length text) as H1.
  pose proof (trimStart_length (rev (trimStart text))) as H2.
  unfold Js.length in *. rewrite length_rev in *. lia.
Qed.

Lemma trim_idempotent text : trim (trim text) = trim text.
Proof. apply trim_id; [apply trim_starts|apply trim_ends]. Qed.

(** X1.  A [content] that is not a string (absent, [null], a boolean, a
    number, an array or an object) is answered 400 "Secret content is
    required", and the store is left as it was. *)
Theorem non_string_rejected s req v uuid now :
  req_body req = Some v →
  is_string v = false →
  create_secret s req uuid now = (s, content_required).
Proof.
  intros Hb Hv. unfold create_secret. rewrite Hb.
  destruct (content_missing v); [done|]. by destruct v.
Qed.

Lemma non_string_rejected_witness :
  create_secret (holding "hello" 100)
    (CreateRequest (Some (Number 42)) (lit "http") (lit "localhost:3000")) id2 5
  = (holding "hello" 100, content_required).
Proof. apply (non_string_rejected _ _ (Number 42)); reflexivity. Defined.

(** X2.  The creation handler writes at most the entry of the identifier
    drawn: every other entry is as before.  The whole store is as before
    when the answer is 400, and also when it is anything but 200 as long
    as the expiry instant is a time value of [Date]; beyond that range
    the handler stores the entry and answers 500. *)
Theorem create_frame s req uuid now :
  (∀ k, k ≠ uuid → (create_secret s req uuid now).1 !! k = s !! k)
  ∧ (status (create_secret s req uuid now).2 = 400 →
     (create_secret s req uuid now).1 = s)
  ∧ (-8640000000000000 ≤ now + 86400000 ≤ 8640000000000000 →
     status (create_secret s req uuid now).2 ≠ 200 →
     (create_secret s req uuid now).1 = s).
Proof.
  destruct (create_cases s req uuid now)
    as [(resp & -> & _)|(text & Hb & Ht & Hl)]; [done|].
  rewrite (create_accept _ _ text) by done. cbn [fst snd]. split; [|split].
  - intros k Hk. by rewrite lookup_insert_ne.
  - by destruct (valid_time (now + 86400000)).
  - intros Hv%valid_time_spec. by rewrite Hv.
Qed.

Lemma create_frame_witness :
  (create_secret (holding "hello" 100) (post "other") id2 5).1 !! id1
  = holding "hello" 100 !! id1.
Proof.
  apply (proj1 (create_frame (holding "hello" 100) (post "other") id2 5)).
  discriminate.
Defined.

Lemma read_payload_inv s id now :
  returns_payload (read_secret s id now).2 = true →
  ∃ e, s !! id = Some e
    ∧ now ≤ expiresAt e
    ∧ Js.length id = 36
    ∧ read_secret s id now
      = (delete id s, Response 200 (ContentBody (content e))).
Proof.
  unfold read_secret. simpl.
  destruct (Z.eqb_spec (Js.length id) 36) as [Hid|Hid];
    [|by rewrite orb_true_r].
  destruct (negb (negb (Js.length id =? 0))); [done|]. simpl.
  destruct (s !! id) as [e|]; [|done].
  destruct (Z.ltb_spec (expiresAt e) now); [done|]. eauto.
Qed.

(** X3.  The retrieval handler hands out a content only if the store
    holds an entry under the identifier asked for, the identifier is 36
    code units long and the entry's [expiresAt] is not before [now]; the
    content is that entry's, and the entry is deleted. *)
Theorem delivery_is_sound s id now :
  returns_payload (read_secret s id now).2 = true →
  ∃ e, s !! id = Some e
    ∧ now ≤ expiresAt e
    ∧ Js.length id = 36
    ∧ read_secret s id now
      = (delete id s, Response 200 (ContentBody (content e))).
Proof. apply read_payload_inv. Qed.


Lemma delivery_is_sound_witness :
  ∃ e, holding "hello" 100 !! id1 = Some e
    ∧ 7 ≤ expiresAt e
    ∧ Js.length id1 = 36
    ∧ read_secret (holding "hello" 100) id1 7
      = (delete id1 (holding "hello" 100),
         Response 200 (ContentBody (content e))).
Proof. apply (delivery_is_sound (holding "hello" 100) id1 7). reflexivity. Defined.

Lemma read_misshapen s id now :
  Js.length id ≠ 36 → read_secret s id now = (s, not_found).
Proof.
  intros Hid. unfold read_secret.
  destruct (Z.eqb_spec (Js.length id) 36); [done|]. by rewrite orb_true_r.
Qed.

(** X4.  A retrieval leaves every entry other than the one asked for as
    it is, and an identifier that is not 36 code units long is answered
    "not found" without the store being looked at, even if an entry is
    stored under it. *)
Theorem read_frame s id now :
  (∀ k, k ≠ id → (read_secret s id now).1 !! k = s !! k)
  ∧ (Js.length id ≠ 36 → read_secret s id now = (s, not_found)).
Proof.
  split; [intros k Hk; by apply read_lookup_ne|apply read_misshapen].
Qed.

Lemma read_frame_witness :
  read_secret {[ lit "short" := Secret (lit "hello") 100 ]} (lit "short") 5
  = ({[ lit "short" := Secret (lit "hello") 100 ]}, not_found).
Proof.
  apply (proj2 (read_frame {[ lit "short" := Secret (lit "hello") 100 ]}
                  (lit "short") 5)).
  discriminate.
Defined.

End HandlerFacts.

(** ** The clean-up job, composed *)

Section SweepFacts.

Import Sample.

Implicit Types (s : store) (id : jsstring).

Lemma sweep_sweep_store s t t' :
  t ≤ t' → (sweep (sweep s t).1 t').1 = (sweep s t').1.
Proof.
  intros Ht. apply map_eq. intros k. rewrite !sweep_lookup.
  destruct (s !! k) as [e|]; [|done].
  destruct (Z.ltb_spec (expiresAt e) t), (Z.ltb_spec (expiresAt e) t');
    try done; lia.
Qed.

Lemma sweep_count_nonneg s t : 0 ≤ (sweep s t).2.
Proof. rewrite sweep_count. lia. Qed.

(** X5.  Two clean-ups in a row, the second not earlier than the first,
    leave the store one clean-up at the later instant leaves, and their
    counts add up to that clean-up's count. *)
Theorem sweep_twice s t t' :
  t ≤ t' →
  (sweep (sweep s t).1 t').1 = (sweep s t').1
  ∧ (sweep s t).2 + (sweep (sweep s t).1 t').2 = (sweep s t').2.
Proof.
  intros Ht. pose proof (sweep_sweep_store s t t' Ht) as Hs.
  split; [done|].
  pose proof (sweep_size t s). pose proof (sweep_size t' s).
  pose proof (sweep_size t' (sweep s t).1) as H2. rewrite Hs in H2. lia.
Qed.

Lemma sweep_twice_witness :
  (sweep (sweep (holding "hello" 100) 50).1 150).1 = (sweep (holding "hello" 100) 150).1
  ∧ (sweep (holding "hello" 100) 50).2 + (sweep (sweep (holding "hello" 100) 50).1 150).2
    = (sweep (holding "hello" 100) 150).2.
Proof. apply (sweep_twice (holding "hello" 100) 50 150). lia. Defined.

(** X6.  A clean-up repeated at the same instant finds nothing to
    delete. *)
Theorem sweep_idempotent s t :
  sweep (sweep s t).1 t = ((sweep s t).1, 0).
Proof.
  pose proof (sweep_sweep_store s t t (Z.le_refl t)) as Hs.
  pose proof (sweep_size t (sweep s t).1) as H. rewrite Hs in H.
  destruct (sweep (sweep s t).1 t) as [s2 n] eqn:E. simpl in *.
  f_equal; [done|lia].
Qed.

(** X7.  A clean-up and a retrieval at the same instant commute on the
    store, and a clean-up run first changes the retrieval's answer in one
    case only: "Secret has expired" becomes "not found". *)
Theorem sweep_then_read s id now :
  (read_secret (sweep s now).1 id now).1 = (sweep (read_secret s id now).1 now).1
  ∧ ((read_secret (sweep s now).1 id now).2 = (read_secret s id now).2
     ∨ (read_secret s id now).2 = has_expired
       ∧ (read_secret (sweep s now).1 id now).2 = not_found).
Proof.
  destruct (Z.eqb_spec (Js.length id) 36) as [Hid|Hid].
  2:{ rewrite !read_misshapen by done. simpl. by split; [|left]. }
  destruct (s !! id) as [e|] eqn:He.
  - destruct (Z.ltb_spec (expiresAt e) now) as [Hx|Hx].
    + rewrite (read_expired s id e) by done.
      rewrite read_absent
        by (by rewrite sweep_lookup, He, (proj2 (Z.ltb_lt _ _) Hx)).
      simpl. split; [|by right]. apply map_eq. intros k.
      rewrite !sweep_lookup, lookup_delete.
      case_decide as Hk; [subst k|done].
      by rewrite He, (proj2 (Z.ltb_lt _ _) Hx).
    + assert ((sweep s now).1 !! id = Some e) as He'.
      { by rewrite sweep_lookup, He, (proj2 (Z.ltb_ge _ _) Hx). }
      rewrite (read_live s id e), (read_live _ id e) by (done || lia).
      simpl. split; [|by left]. apply map_eq. intros k.
      rewrite sweep_lookup, !lookup_delete.
      case_decide as Hk; [done|]. by rewrite sweep_lookup.
  - rewrite (read_absent s) by done.
    rewrite read_absent by (by rewrite sweep_lookup, He). simpl.
    by split; [|left].
Qed.

End SweepFacts.

(** ** Executions, further *)

Section RunFacts.

Import Sample.

Implicit Types (s : store) (id : jsstring) (tr past : list request).

Lemma total_deleted_step s r : 0 ≤ deleted (r, (step s r).2).
Proof.
  unfold deleted. simpl. destruct r as [req uuid now|id now|now|]; simpl.
  - destruct (create_secret s req uuid now) as [s1 [st b]]. simpl.
    destruct b; try case_bool_decide; lia.
  - destruct (read_secret s id now) as [s1 [st b]]. simpl.
    destruct b; try case_bool_decide; lia.
  - destruct (sweep s now) as [s1 n] eqn:E. simpl.
    pose proof (sweep_count_nonneg s now) as H. by rewrite E in H.
  - lia.
Qed.

(** One callback, without any assumption on the identifier drawn. *)
Lemma step_size_le s r :
  Z.of_nat (size (step s r).1)
  ≤ Z.of_nat (size s) + stored (r, (step s r).2) - deleted (r, (step s r).2).
Proof.
  destruct r as [req uuid now|id now|now|].
  - rewrite step_create. unfold stored, deleted. cbn [fst snd].
    destruct (reaches_set req) eqn:E.
    + apply reaches_set_spec in E as (text & Hb & Ht & Hl).
      rewrite (create_accept _ _ text) by done. cbn [fst snd].
      rewrite map_size_insert.
      destruct (s !! uuid), (valid_time (now + 86400000)); simpl; lia.
    + destruct (create_cases s req uuid now)
        as [(resp & -> & [->|[->| ->]])|Hacc]; [simpl; lia..|].
      apply reaches_set_spec in Hacc. congruence.
  - rewrite <-step_size; [lia|]. done.
  - rewrite <-step_size; [lia|]. done.
  - rewrite <-step_size; [lia|]. done.
Qed.

(** X8.  After any sequence of callbacks from the empty store, whatever
    identifiers are drawn, the store holds at most as many entries as
    were stored minus those deleted; so no more entries are ever deleted
    (handed out, found expired or cleaned up) than creations were
    accepted. *)
Theorem size_bounded tr :
  Z.of_nat (size (run ∅ tr).1)
  ≤ total stored (run ∅ tr).2 - total deleted (run ∅ tr).2
  ∧ total deleted (run ∅ tr).2 ≤ total stored (run ∅ tr).2.
Proof.
  cut (∀ s, Z.of_nat (size (run s tr).1)
            ≤ Z.of_nat (size s) + total stored (run s tr).2
              - total deleted (run s tr).2).
  { intros H. specialize (H ∅). rewrite map_size_empty in H. lia. }
  induction tr as [|r tr IH]; intros s; [simpl; lia|].
  rewrite run_cons. simpl. specialize (IH (step s r).1).
  pose proof (step_size_le s r). lia.
Qed.

(** An entry that a callback leaves in the store was there before or is
    what this callback, an accepted creation, stored. *)
Lemma step_issued s r id e :
  (step s r).1 !! id = Some e → s !! id = Some e ∨ issued_by [r] id e.
Proof.
  destruct r as [req uuid now|id' now|now|]; [| | |by left].
  - rewrite step_create.
    destruct (create_cases s req uuid now)
      as [(resp & -> & _)|(text & Hb & Ht & Hl)]; [by left|].
    rewrite (create_accept _ _ text) by done. simpl.
    rewrite lookup_insert. case_decide as Hk; [|by left].
    intros [= <-]. subst uuid. right. exists req, now, text.
    split; [apply list_elem_of_singleton; done|done].
  - rewrite step_retrieve.
    destruct (read_cases s id' now) as [->|(e' & _ & [[-> _]|[-> _]])]; simpl;
      [by left|..]; intros H%lookup_delete_Some; left; apply H.
  - rewrite step_cleanup. simpl. rewrite sweep_lookup.
    destruct (s !! id) as [e'|]; [|done].
    destruct (expiresAt e' <? now); [done|]. by left.
Qed.

Lemma issued_by_mono past past' id e :
  past ⊆ past' → issued_by past id e → issued_by past' id e.
Proof. intros Hsub (req & now & text & Hin & H). exists req, now, text. auto. Qed.

Lemma sub_app_l past tr : past ⊆ past ++ tr.
Proof. intros x Hx. apply elem_of_app. by left. Qed.

Lemma sub_app_r past tr : tr ⊆ past ++ tr.
Proof. intros x Hx. apply elem_of_app. by right. Qed.

Lemma empty_issued : all_issued [] ∅.
Proof. intros i x. by rewrite lookup_empty. Qed.

Lemma run_issued tr : ∀ s past,
  all_issued past s → all_issued (past ++ tr) (run s tr).1.
Proof.
  induction tr as [|r tr IH]; intros s past Hs.
  { simpl. by rewrite app_nil_r. }
  rewrite run_cons. simpl. rewrite (assoc_L (++) past [r] tr : past ++ r :: tr = _).
  apply IH. intros id e [H|H]%step_issued.
  - eapply issued_by_mono; [|by apply Hs]. apply sub_app_l.
  - eapply issued_by_mono; [|done]. apply sub_app_r.
Qed.

(** X9.  Every entry of a store reached from the empty one was put there
    by a creation of the trace that drew the entry's key: its content is
    the trimmed text of that request, a text of at most 100000 code
    units, and its [expiresAt] is that creation's instant plus 24 hours. *)
Theorem entries_are_issued tr id e :
  (run ∅ tr).1 !! id = Some e → issued_by tr id e.
Proof.
  intros H. by apply (run_issued tr ∅ [] empty_issued).
Qed.

Lemma entries_are_issued_witness :
  issued_by [Create (post "  hi ") id1 1; Health] id1 (Secret (lit "hi") 86400001).
Proof.
  apply (entries_are_issued [Create (post "  hi ") id1 1; Health] id1).
  vm_compute. reflexivity.
Defined.

(** X10.  No stored content is longer than 100000 code units. *)
Theorem stored_contents_bounded tr id e :
  (run ∅ tr).1 !! id = Some e → Js.length (content e) ≤ 100000.
Proof.
  intros H.
  destruct (run_issued tr ∅ [] empty_issued id e H)
    as (req & now & text & _ & _ & Hl & ->).
  simpl. pose proof (trim_length text). lia.
Qed.

Lemma stored_contents_bounded_witness :
  Js.length (content (Secret (lit "hi") 86400001)) ≤ 100000.
Proof.
  apply (stored_contents_bounded [Create (post "  hi ") id1 1; Health] id1).
  vm_compute. reflexivity.
Defined.

(** X11.  An entry stays in the store, unchanged, through any sequence of
    callbacks that neither retrieves its identifier nor draws it again,
    as long as no clean-up runs after its [expiresAt]. *)
Theorem unread_secret_kept tr : ∀ s id e,
  s !! id = Some e →
  Forall (λ r, issues id r = false) tr →
  Forall (λ r, retrieves id r = false) tr →
  Forall (λ r, sees_expired id (expiresAt e) r = false) tr →
  (run s tr).1 !! id = Some e.
Proof.
  induction tr as [|r tr IH]; intros s id e Hs Hi Hr Hx; [done|].
  apply Forall_cons in Hi as [Hi1 Hi]. apply Forall_cons in Hr as [Hr1 Hr].
  apply Forall_cons in Hx as [Hx1 Hx].
  rewrite run_cons. simpl. apply IH; try done. by apply step_kept.
Qed.

Lemma unread_secret_kept_witness :
  (run (holding "hello" 100) [Health; Create (post "other") id2 6; Cleanup 100;
                              Retrieve id2 101]).1 !! id1
  = Some (Secret (lit "hello") 100).
Proof.
  apply (unread_secret_kept _ (holding "hello" 100) id1 (Secret (lit "hello") 100)).
  - reflexivity.
  - repeat constructor.
  - repeat constructor.
  - repeat constructor.
Defined.

Lemma run_delivers tr : ∀ s past id now c,
  all_issued past s →
  (Retrieve id now, Reply (Response 200 (ContentBody c))) ∈ (run s tr).2 →
  ∃ e, issued_by (past ++ tr) id e ∧ c = content e ∧ now ≤ expiresAt e.
Proof.
  induction tr as [|r tr IH]; intros s past id now c Hs Hin.
  { by apply elem_of_nil in Hin. }
  rewrite run_cons in Hin. simpl in Hin.
  rewrite (assoc_L (++) past [r] tr : past ++ r :: tr = _).
  apply elem_of_cons in Hin as [Heq|Hin].
  - injection Heq as <- Hresp. rewrite step_retrieve in Hresp. simpl in Hresp.
    injection Hresp as Hresp.
    destruct (read_payload_inv s id now) as (e & He & Hnow & _ & Hread).
    { by rewrite <-Hresp. }
    rewrite Hread in Hresp. simpl in Hresp. injection Hresp as ->.
    exists e. split; [|done].
    eapply issued_by_mono; [|by apply Hs].
    intros x Hx. apply elem_of_app. left. apply elem_of_app. by left.
  - apply (IH (step s r).1 (past ++ [r])); [|done].
    intros i x [H|H]%step_issued.
    + eapply issued_by_mono; [|by apply Hs]. apply sub_app_l.
    + eapply issued_by_mono; [|done]. apply sub_app_r.
Qed.

(** X12.  In an execution from the empty store, a content handed out by
    a retrieval of [id] at [now] is the trimmed text of a creation of the
    trace that drew [id], and that creation's instant is at most 24 hours
    before [now]. *)
Theorem delivered_was_created tr id now c :
  (Retrieve id now, Reply (Response 200 (ContentBody c))) ∈ (run ∅ tr).2 →
  ∃ req created text,
    Create req id created ∈ tr
    ∧ req_body req = Some (Str text)
    ∧ c = trim text
    ∧ now ≤ created + 86400000.
Proof.
  intros H.
  destruct (run_delivers tr ∅ [] id now c empty_issued H)
    as (e & (req & created & text & Hin & Hb & _ & ->) & -> & Hnow).
  exists req, created, text. simpl in *. done.
Qed.

Lemma delivered_was_created_witness :
  ∃ req created text,
    Create req id1 created ∈ [Create (post " hi ") id1 1; Retrieve id1 9]
    ∧ req_body req = Some (Str text)
    ∧ lit "hi" = trim text
    ∧ 9 ≤ created + 86400000.
Proof.
  apply (delivered_was_created [Create (post " hi ") id1 1; Retrieve id1 9]).
  vm_compute. apply list_elem_of_further, list_elem_of_here.
Defined.

End RunFacts.

(** * The page script *)

Section Page.

Import Client Sample SamplePage.

Implicit Types (p : page) (el : elem) (v : view_name).

Lemma showView_active v p : is_active (showView v p) (viewMap v) = true.
Proof.
  apply bool_decide_eq_true. simpl. rewrite decide_True by done.
  apply elem_of_union. right. by apply elem_of_singleton.
Qed.

(** X13.  After [showView], the view asked for is active and no other
    element of class [view] is; apart from [active] no class is added to
    or removed from any element, and elements that are not views are not
    touched. *)
Theorem showView_switches v p :
  "active" ∈ classList (showView v p) (viewMap v)
  ∧ (∀ el, el ≠ viewMap v → "view" ∈ classList p el →
           "active" ∉ classList (showView v p) el)
  ∧ (∀ el c, c ≠ "active" →
             c ∈ classList (showView v p) el ↔ c ∈ classList p el)
  ∧ (∀ el, el ≠ viewMap v → "view" ∉ classList p el →
           classList (showView v p) el = classList p el).
Proof.
  split; [|split; [|split]].
  - pose proof (showView_active v p) as H. by apply bool_decide_eq_true in H.
  - intros el Hel Hview. simpl. rewrite decide_False by done.
    unfold hidden. rewrite decide_True by done.
    intros [_ H]%elem_of_difference. apply H. by apply elem_of_singleton.
  - intros el c Hc. simpl. unfold hidden.
    destruct (decide (el = viewMap v)), (decide ("view" ∈ classList p el));
      rewrite ?elem_of_union, ?elem_of_difference, ?elem_of_singleton; tauto.
  - intros el Hel Hview. simpl. rewrite decide_False by done.
    unfold hidden. by rewrite decide_False.
Qed.

Lemma showView_switches_witness :
  "active" ∉ classList (showView read home) viewCreate.
Proof.
  apply (proj1 (proj2 (showView_switches read home)) viewCreate).
  - discriminate.
  - vm_compute. reflexivity.
Defined.

(** X14.  After the Escape key the create view is active, and no request
    is made. *)
Theorem escape_goes_home e p :
  key e = "Escape"%string →
  is_active (on_keydown e p).1 viewCreate = true ∧ (on_keydown e p).2 = None.
Proof.
  intros He. unfold on_keydown. rewrite He. simpl. rewrite andb_false_r.
  destruct (is_active p viewCreate) eqn:Ha; simpl; [done|].
  split; [apply (showView_active create)|done].
Qed.

Lemma escape_goes_home_witness :
  is_active (on_keydown (KeyEvent false false "Escape") opening).1 viewCreate = true
  ∧ (on_keydown (KeyEvent false false "Escape") opening).2 = None.
Proof. apply (escape_goes_home (KeyEvent false false "Escape") opening). reflexivity. Defined.

(** X15.  A text made of white space only enables the create button, but
    a click on it posts nothing: the page shows "Please enter some
    content to share" and is otherwise as it was. *)
Theorem blank_text_not_posted text p :
  text ≠ [] →
  forallb is_space text = true →
  createBtn_disabled (on_input text p) = false
  ∧ on_create_click (on_input text p)
    = (alert (lit "Please enter some content to share") (on_input text p), None).
Proof.
  intros Hne Hsp. split.
  - simpl. destruct (Z.eqb_spec (Js.length text) 0) as [H|H]; [|done].
    by apply Z.eqb_eq, length_zero in H.
  - unfold on_create_click. simpl secretInput_value.
    apply trim_nil in Hsp. by rewrite Hsp.
Qed.

Lemma blank_text_not_posted_witness :
  createBtn_disabled (on_input (lit "  ") home) = false
  ∧ on_create_click (on_input (lit "  ") home)
    = (alert (lit "Please enter some content to share") (on_input (lit "  ") home),
       None).
Proof. apply (blank_text_not_posted (lit "  ") home); [discriminate|reflexivity]. Defined.

Lemma error_or_nonempty data fallback :
  fallback ≠ ""%string → String.eqb (error_or data fallback) "" = false.
Proof.
  intros Hf. unfold error_or.
  destruct data as [e| | |]; try by apply String.eqb_neq.
  destruct (String.eqb e "") eqn:He; [by apply String.eqb_neq|done].
Qed.

(** The page after any answer that is not a success: the error view,
    whatever the status and the message. *)
Lemma failed_retrieval resp p :
  ok resp = false →
  handleRouting_done (Got resp) p = showView error (showLoading false p).
Proof.
  intros Hok. unfold handleRouting_done, retrieveSecret. rewrite Hok. simpl.
  by rewrite error_or_nonempty.
Qed.

(** X16.  A retrieval that fails, with whatever status outside 200-299
    and whatever message, or because the request itself fails, leaves the
    page on the error view with nothing else changed but the loading
    indicator: neither the status nor the message shows. *)
Theorem failures_look_alike f p :
  match f with Got resp => ok resp = false | Threw _ => True end →
  handleRouting_done f p = showView error (showLoading false p).
Proof. destruct f as [m|resp]; [done|apply failed_retrieval]. Qed.

Lemma failures_look_alike_witness :
  handleRouting_done (Got has_expired) opening
  = showView error (showLoading false opening).
Proof. apply (failures_look_alike (Got has_expired) opening). reflexivity. Defined.

End Page.

(** * The page and the server together *)

Section EndToEnd.

Import Client Sample SamplePage.

Implicit Types (p : page) (s : store) (id uuid text : jsstring) (now : Z).

(** X17.  What the create button posts is the trimmed text of the text
    area.  Unless it is longer than 100000 code units, in which case the
    server answers "too large" and stores nothing, the server stores it
    as posted: its [trim] changes nothing, since the page has trimmed the
    text and posts it only if something is left.  The answer is then 200
    with the identifier, as long as the expiry instant is a time value
    of [Date]. *)
Theorem posted_content_stored_verbatim p p' c s req uuid now :
  on_create_click p = (p', Some c) →
  req_body req = Some (Str c) →
  c = trim (secretInput_value p)
  ∧ (Js.length c ≤ 100000 →
     (create_secret s req uuid now).1
     = <[uuid := Secret c (now + 86400000)]> s
     ∧ (-8640000000000000 ≤ now + 86400000 ≤ 8640000000000000 →
        (create_secret s req uuid now).2
        = Response 200
            (CreatedBody uuid (secret_url req uuid) (now + 86400000)
               expires_in)))
  ∧ (Js.length c > 100000 →
     create_secret s req uuid now = (s, content_too_large)).
Proof.
  unfold on_create_click. intros Hclick Hb.
  destruct (negb (truthy (Str (trim (secretInput_value p))))) eqn:Ht; [done|].
  injection Hclick as _ <-. split; [done|].
  apply negb_false_iff in Ht. simpl in Ht. apply negb_true_iff in Ht.
  assert (trim (secretInput_value p) ≠ []) as Hne.
  { intros H. apply not_true_iff_false in Ht. by apply Ht, length_zero. }
  split.
  - intros Hl.
    rewrite (create_accept s req (trim (secretInput_value p)))
      by (done || by rewrite trim_idempotent).
    cbn [fst snd]. rewrite trim_idempotent. split; [done|].
    intros Hv%valid_time_spec. by rewrite Hv.
  - intros Hl. unfold create_secret. rewrite Hb.
    destruct (content_missing _) eqn:Hm.
    { apply content_missing_str in Hm. by rewrite trim_idempotent in Hm. }
    by destruct (Z.gtb_spec (Js.length (trim (secretInput_value p))) 100000);
      [|lia].
Qed.

Lemma posted_content_stored_verbatim_witness :
  (create_secret ∅ (post "hi") id1 5).1
  = <[id1 := Secret (lit "hi") (5 + 86400000)]> ∅
  ∧ (create_secret ∅ (post "hi") id1 5).2
    = Response 200
        (CreatedBody id1 (secret_url (post "hi") id1) (5 + 86400000) expires_in).
Proof.
  assert (Js.length (lit "hi") ≤ 100000) as Hl by (vm_compute; discriminate).
  assert (-8640000000000000 ≤ 5 + 86400000 ≤ 8640000000000000) as Hv by lia.
  destruct (posted_content_stored_verbatim (on_input (lit " hi ") home)
              (showLoading true (on_input (lit " hi ") home)) (lit "hi")
              ∅ (post "hi") id1 5 eq_refl eq_refl) as (_ & Hok & _).
  destruct (Hok Hl) as [Hst Hresp]. split; [exact Hst|exact (Hresp Hv)].
Defined.

(** X18.  The page after an accepted creation, made while the expiry
    instant is a time value of [Date]: the link field holds
    [protocol://host/?secret=id] with the identifier drawn, the expiry
    line reads "Expires 24 hours", the text area is empty, the create
    button is disabled, the result view is active, and no alert is
    shown. *)
Theorem page_after_creation s req text uuid now p :
  req_body req = Some (Str text) →
  trim text ≠ [] →
  Js.length text ≤ 100000 →
  -8640000000000000 ≤ now + 86400000 ≤ 8640000000000000 →
  let q := on_create_done (Got (create_secret s req uuid now).2) p in
  resultLink_value q = protocol req ++ lit "://" ++ host req ++ lit "/?secret=" ++ uuid
  ∧ expirationText_textContent q = lit "Expires 24 hours"
  ∧ secretInput_value q = []
  ∧ createBtn_disabled q = true
  ∧ is_active q viewResult = true
  ∧ alerts q = alerts p.
Proof.
  intros Hb Ht Hl Hv%valid_time_spec.
  rewrite (create_accept _ _ text), Hv by done. simpl.
  repeat split. apply (showView_active result).
Qed.

Lemma page_after_creation_witness :
  resultLink_value (on_create_done (Got (create_secret ∅ (post "hi") id1 5).2) home)
  = lit "http://localhost:3000/?secret=550e8400-e29b-41d4-a716-446655440000".
Proof.
  refine (eq_trans (proj1
    (page_after_creation ∅ (post "hi") (lit "hi") id1 5 home _ _ _ _)) _).
  - reflexivity.
  - discriminate.
  - vm_compute. discriminate.
  - lia.
  - reflexivity.
Defined.

(** X19.  The page after a creation the server refuses: the server's
    error message is shown in an alert after "Error: ", the loading
    indicator is hidden, and nothing else changes; the text typed is
    still there. *)
Theorem page_after_rejection s req uuid now p :
  status (create_secret s req uuid now).2 ≠ 200 →
  ∃ msg,
    json (create_secret s req uuid now).2 = ErrorBody msg
    ∧ on_create_done (Got (create_secret s req uuid now).2) p
      = showLoading false (alert (lit "Error: " ++ lit msg) p)
    ∧ secretInput_value
        (on_create_done (Got (create_secret s req uuid now).2) p)
      = secretInput_value p.
Proof.
  intros Hst.
  destruct (create_cases s req uuid now)
    as [(resp & Hc & [->|[->| ->]])|(text & Hb & Ht & Hl)].
  1-3: rewrite Hc; simpl; by eexists.
  revert Hst. rewrite (create_accept _ _ text) by done. cbn [fst snd].
  destruct (valid_time (now + 86400000)); [done|]. intros _. by eexists.
Qed.

Lemma page_after_rejection_witness :
  ∃ msg,
    json (create_secret ∅ (post "  ") id1 5).2 = ErrorBody msg
    ∧ on_create_done (Got (create_secret ∅ (post "  ") id1 5).2) home
      = showLoading false (alert (lit "Error: " ++ lit msg) home)
    ∧ secretInput_value
        (on_create_done (Got (create_secret ∅ (post "  ") id1 5).2) home)
      = secretInput_value home.
Proof. apply (page_after_rejection ∅ (post "  ") id1 5 home). discriminate. Defined.

(** X20.  The page after the server has answered a retrieval.  If the
    answer carries a content, the read view is active and shows that
    content, which is the stored entry's, and [currentSecret] holds it.
    Otherwise the page is on the error view and is the same whether the
    identifier was unknown, already used or expired. *)
Theorem page_after_retrieval s id now p :
  let resp := (read_secret s id now).2 in
  let q := handleRouting_done (Got resp) p in
  if returns_payload resp
  then ∃ e, s !! id = Some e
         ∧ secretContent_textContent q = content e
         ∧ currentSecret q = Str (content e)
         ∧ is_active q viewRead = true
  else q = showView error (showLoading false p)
       ∧ secretContent_textContent q = secretContent_textContent p
       ∧ currentSecret q = currentSecret p.
Proof.
  simpl.
  destruct (read_cases s id now) as [->|(e & He & [[-> _]|[-> _]])]; simpl.
  - done.
  - done.
  - exists e. repeat split; [done|]. apply (showView_active read).
Qed.

End EndToEnd.
